(** * A planetarium dome master camera: the ray generation program

    Shallow embedding of [camera_dome_general<STEREO_ON, DOF_ON>] of
    [Ch_04_A_Planetarium_Dome_Master_Camera/dome_master_camera.cu] and of its
    four instantiations.

    The program computes on 32-bit unsigned integers and on single precision
    floats.  Integers are [Z] with the wrap-around written out.  The floating
    point operations are kept behind the interface [FloatOps]; the program
    is read in [Binary32]: IEEE 754 binary32 through the Standard Library's
    [SpecFloat] (every operator rounds once, to nearest even; no fused
    multiply-add), with the math library ([hypotf], [sincosf], [powf])
    taken as a parameter.

    The theorems on the control flow of the program are proved for every
    implementation of the interface, so they do not depend on how the
    compiler rounds or contracts the arithmetic.

    What the program calls outside of this file (the hash [tea<4>], the
    jitter generator, [dof_ray], [rtTrace], [accumulate_color]) is a field of
    [Host]; calls with an effect are recorded in an event log. *)

From Stdlib Require Import ZArith List Bool Lia.
From Stdlib Require Import Floats.SpecFloat.
Import ListNotations.

Set Implicit Arguments.

(** ** Unsigned 32-bit integers *)

Module UInt.

Definition modulus : Z := 2 ^ 32.

Definition wrap (z : Z) : Z := z mod modulus.

Definition add (a b : Z) : Z := wrap (a + b).
Definition sub (a b : Z) : Z := wrap (a - b).
Definition mul (a b : Z) : Z := wrap (a * b).
Definition shl (a n : Z) : Z := wrap (Z.shiftl a n).
Definition shr (a n : Z) : Z := Z.shiftr a n.

Definition in_range (z : Z) : Prop := (0 <= z < modulus)%Z.

Lemma wrap_range z : in_range (wrap z).
Proof. unfold in_range, wrap, modulus. apply Z.mod_pos_bound. lia. Qed.

Lemma wrap_small z : in_range z -> wrap z = z.
Proof. unfold in_range, wrap. intros H. now apply Z.mod_small. Qed.

End UInt.

(** The launch index and dimension are [uint2]. *)
Record uint2 := make_uint2 { ux : Z; uy : Z }.

(** ** The floating point interface

    [F] stands for [float].  [D] stands for [double], which the program
    touches in one place only: the literal [0.5] of [rmax] makes that
    product a double precision one, narrowed when it is stored. *)

Class FloatOps (F : Type) := {
  f_add : F -> F -> F;
  f_sub : F -> F -> F;
  f_mul : F -> F -> F;
  f_div : F -> F -> F;
  f_neg : F -> F;
  f_ltb : F -> F -> bool;
  f_leb : F -> F -> bool;
  f_eqb : F -> F -> bool;
  (** conversion of an unsigned integer, as [make_float2(uint, uint)] does *)
  f_of_uint : Z -> F;
  (** the literals [0.0f], [0.5f], [1.f], [5.0] (as a float) and [180.0f] *)
  f_zero : F;
  f_half : F;
  f_one : F;
  f_five : F;
  f_180 : F;
  (** the macro [M_PIf] *)
  M_PIf : F;
  (** double precision: the literal [0.5], widening, product, narrowing *)
  D : Type;
  d_half : D;
  d_of_f : F -> D;
  d_mul : D -> D -> D;
  f_of_d : D -> F;
  (** the math library *)
  hypotf : F -> F -> F;
  sincosf : F -> F * F;
  powf : F -> F -> F;
  (** the two facts about comparisons the proofs use: [a >= b] excludes
      [a < b], and [a < b] excludes [b == a] (also when an operand is not a
      number) *)
  f_leb_not_ltb : forall a b, f_leb b a = true -> f_ltb a b = false;
  f_ltb_not_eqb : forall a b, f_ltb a b = true -> f_eqb b a = false
}.

Declare Scope flt_scope.
Delimit Scope flt_scope with flt.
Notation "x + y" := (f_add x y) : flt_scope.
Notation "x - y" := (f_sub x y) : flt_scope.
Notation "x * y" := (f_mul x y) : flt_scope.
Notation "x / y" := (f_div x y) : flt_scope.
Notation "- x" := (f_neg x) : flt_scope.
Notation "x <? y" := (f_ltb x y) : flt_scope.
Notation "x <=? y" := (f_leb x y) : flt_scope.
Notation "x =? y" := (f_eqb x y) : flt_scope.

(** ** Vectors: [float2], [float3] and the operators the program uses *)

Section Vectors.
Context {F : Type} {ops : FloatOps F}.
Local Open Scope flt_scope.

Record float2 := make_float2 { x2 : F; y2 : F }.
Record float3 := make_float3 { x3 : F; y3 : F; z3 : F }.

(** [make_float3(s)] *)
Definition make_float3_s (s : F) : float3 := make_float3 s s s.

(** [float2 + float2], [float2 - float2], [float2 * float2] *)
Definition add2 (a b : float2) : float2 := make_float2 (x2 a + x2 b) (y2 a + y2 b).
Definition sub2 (a b : float2) : float2 := make_float2 (x2 a - x2 b) (y2 a - y2 b).
Definition mul2 (a b : float2) : float2 := make_float2 (x2 a * x2 b) (y2 a * y2 b).
(** [float2 * float] *)
Definition scale2 (a : float2) (s : F) : float2 := make_float2 (x2 a * s) (y2 a * s).
(** [float / float2] *)
Definition sdiv2 (s : F) (a : float2) : float2 := make_float2 (s / x2 a) (s / y2 a).

(** [float3 + float3], [float3 - float3], [-float3] *)
Definition add3 (a b : float3) : float3 :=
  make_float3 (x3 a + x3 b) (y3 a + y3 b) (z3 a + z3 b).
Definition sub3 (a b : float3) : float3 :=
  make_float3 (x3 a - x3 b) (y3 a - y3 b) (z3 a - z3 b).
Definition neg3 (a : float3) : float3 := make_float3 (- x3 a) (- y3 a) (- z3 a).
(** [float3 * float] *)
Definition scale3 (a : float3) (s : F) : float3 :=
  make_float3 (x3 a * s) (y3 a * s) (z3 a * s).
(** [float * float3] *)
Definition lscale3 (s : F) (a : float3) : float3 :=
  make_float3 (s * x3 a) (s * y3 a) (s * z3 a).

Definition cross (a b : float3) : float3 :=
  make_float3 (y3 a * z3 b - z3 a * y3 b)
              (z3 a * x3 b - x3 a * z3 b)
              (x3 a * y3 b - y3 a * x3 b).


(** [powf] of a vector: the power of each component. *)
Definition powf3 (a : float3) (p : F) : float3 :=
  make_float3 (powf (x3 a) p) (powf (y3 a) p) (powf (z3 a) p).

End Vectors.

Arguments float2 F : clear implicits.
Arguments float3 F : clear implicits.

(** ** The program's variables and the host runtime *)

(** [optix::Ray], as [optix::make_Ray] fills it. *)
Record Ray (F : Type) := make_Ray {
  origin : float3 F;
  direction : float3 F;
  ray_type : Z;
  tmin : F;
  tmax : F
}.

(** The payload [PerRayData_radiance]. *)
Record PerRayData_radiance (F : Type) := {
  result : float3 F;
  importance : F;
  alpha : F;
  depth : Z;
  transcnt : Z
}.

(** The variables the host sets before a launch, and the launch index. *)
Record Globals (F : Type) := {
  launch_index : uint2;
  launch_dim : uint2;
  cam_pos : float3 F;
  cam_U : float3 F;
  cam_V : float3 F;
  cam_W : float3 F;
  cam_stereo_eyesep : F;
  aa_samples : Z;
  max_trans : Z;
  radiance_ray_type : Z;
  scene_epsilon : F
}.

(** What [boilerplate.cuh] and the runtime provide.  [randseed] is passed to
    [jitter_offset2f] and [dof_ray] by reference: they return the new seed.
    [dof_ray] gets the ray's origin and direction (each both as input and as
    output), the seed, and the lens basis.  [rtTrace] fills the payload;
    [indeterminate] is the value of [prd.result] before the call, a field
    the program leaves unset. *)
Record Host (F : Type) := {
  tea4 : Z -> Z -> Z;
  subframe_count : Z;
  jitter_offset2f : Z -> Z * float2 F;
  dof_ray : float3 F -> float3 F -> Z -> float3 F -> float3 F ->
            float3 F * float3 F * Z;
  rtTrace : Ray F -> PerRayData_radiance F -> PerRayData_radiance F;
  RT_DEFAULT_MAX : F;
  indeterminate : float3 F
}.

(** The calls the program makes, in the order it makes them. *)
Inductive event (F : Type) :=
  | EvJitter (jxy : float2 F)
  | EvTrace (ray : Ray F) (prd : PerRayData_radiance F)
  | EvAccumulate (col : float3 F) (a : F).

Arguments EvJitter {F} jxy.
Arguments EvTrace {F} ray prd.
Arguments EvAccumulate {F} col a.

(** The two sub-images of a stereo frame, named as the comments of the two
    branches name them; [MonoImage] when stereo is off. *)
Inductive Image := LeftImage | RightImage | MonoImage.

(** ** [camera_dome_general] *)

Section Program.
Context {F : Type} {ops : FloatOps F}.
Variable h : Host F.
Local Open Scope flt_scope.

(** The locals of lines 28-47. *)
Record Viewport := {
  viewport_sz_y : Z;
  viewport_idx_y : Z;
  eyeshift : F;
  image : Image
}.

Definition stereo_viewport (STEREO_ON : bool) (g : Globals F) : Viewport :=
  if STEREO_ON then
    let sz := UInt.shr (uy (launch_dim g)) 1 in
    if (uy (launch_index g) >=? sz)%Z then
      {| viewport_sz_y := sz;
         viewport_idx_y := UInt.sub (uy (launch_index g)) sz;
         eyeshift := (- f_half) * cam_stereo_eyesep g;
         image := LeftImage |}
    else
      {| viewport_sz_y := sz;
         viewport_idx_y := uy (launch_index g);
         eyeshift := f_half * cam_stereo_eyesep g;
         image := RightImage |}
  else
    {| viewport_sz_y := uy (launch_dim g);
       viewport_idx_y := uy (launch_index g);
       eyeshift := f_zero;
       image := MonoImage |}.

Definition fov : F := f_180.

(** [0.5 * fov * (M_PIf / 180.0f)]: the quotient is a float, the two
    products are doubles, the result is stored in a float. *)
Definition rmax : F :=
  f_of_d (d_mul (d_mul d_half (d_of_f fov)) (d_of_f (M_PIf / f_180))).

Definition viewport_sz (g : Globals F) (vp : Viewport) : float2 F :=
  make_float2 (f_of_uint (ux (launch_dim g))) (f_of_uint (viewport_sz_y vp)).

Definition radperpix (g : Globals F) (vp : Viewport) : float2 F :=
  sdiv2 (M_PIf / f_180 * fov) (viewport_sz g vp).

Definition viewport_mid (g : Globals F) (vp : Viewport) : float2 F :=
  scale2 (viewport_sz g vp) f_half.

(** Line 65.  The index is computed on unsigned integers; the frame counter
    is converted to one. *)
Definition pixel_number (g : Globals F) : Z :=
  UInt.add (UInt.mul (ux (launch_dim g)) (uy (launch_index g)))
           (ux (launch_index g)).

Definition initial_seed (g : Globals F) : Z :=
  tea4 h (pixel_number g) (UInt.wrap (subframe_count h)).

(** Lines 73-77: the sample's angles. *)
Definition sample_rd (g : Globals F) (vp : Viewport) (jxy : float2 F) : float2 F :=
  let viewport_idx :=
    add2 (make_float2 (f_of_uint (ux (launch_index g)))
                      (f_of_uint (viewport_idx_y vp))) jxy in
  mul2 (sub2 viewport_idx (viewport_mid g vp)) (radperpix g vp).

Definition sample_rangle (rd : float2 F) : F := hypotf (x2 rd) (y2 rd).

(** Line 94. *)
Definition fisheye_direction (g : Globals F) (rd : float2 F) (rangle : F) : float3 F :=
  let '(rasin, racos) := sincosf rangle in
  let rsin := rasin / rangle in
  add3 (add3 (scale3 (scale3 (cam_U g) rsin) (x2 rd))
             (scale3 (scale3 (cam_V g) rsin) (y2 rd)))
       (scale3 (cam_W g) racos).

(** Lines 95-96: the lens basis of [dof_ray]. *)
Definition up_direction (g : Globals F) (rd : float2 F) (rangle : F) : float3 F :=
  let '(rasin, racos) := sincosf rangle in
  let rcos := racos / rangle in
  add3 (sub3 (scale3 (scale3 (neg3 (cam_U g)) rcos) (x2 rd))
             (scale3 (scale3 (cam_V g) rcos) (y2 rd)))
       (scale3 (cam_W g) rasin).

Definition right_direction (g : Globals F) (rd : float2 F) (rangle : F) : float3 F :=
  add3 (scale3 (cam_U g) (y2 rd / rangle))
       (scale3 (cam_V g) ((- x2 rd) / rangle)).

(** Lines 82-108: origin and direction of the ray of a sample inside the
    field of view, and the seed afterwards. *)
Definition dome_ray (STEREO_ON DOF_ON : bool) (g : Globals F) (vp : Viewport)
    (rd : float2 F) (rangle : F) (seed : Z) : float3 F * float3 F * Z :=
  let ray_origin := cam_pos g in
  if rangle =? f_zero then
    (ray_origin, cam_W g, seed)
  else
    let ray_direction := fisheye_direction g rd rangle in
    let ray_origin :=
      if STEREO_ON then
        add3 ray_origin
             (lscale3 (eyeshift vp) (powf3 (cross ray_direction (cam_W g)) f_five))
      else ray_origin in
    if DOF_ON then
      dof_ray h ray_origin ray_direction seed
              (up_direction g rd rangle) (right_direction g rd rangle)
    else
      (ray_origin, ray_direction, seed).

(** The state of the sample loop: the seed, the two accumulators ([alpha]
    is [acc_alpha] here, the payload has a field of that name), and the
    calls made so far. *)
Record State := {
  randseed : Z;
  col : float3 F;
  acc_alpha : F;
  log : list (event F)
}.

Definition fresh_prd (g : Globals F) : PerRayData_radiance F :=
  {| result := indeterminate h;
     importance := f_one;
     alpha := f_one;
     depth := 0;
     transcnt := max_trans g |}.

(** One iteration of the loop, lines 70-120. *)
Definition sample (STEREO_ON DOF_ON : bool) (g : Globals F) (vp : Viewport)
    (st : State) : State :=
  let '(seed1, jxy) := jitter_offset2f h (randseed st) in
  let rd := sample_rd g vp jxy in
  let rangle := sample_rangle rd in
  if rangle <? rmax then
    let '(ray_origin, ray_direction, seed2) :=
      dome_ray STEREO_ON DOF_ON g vp rd rangle seed1 in
    let ray := make_Ray ray_origin ray_direction (radiance_ray_type g)
                        (scene_epsilon g) (RT_DEFAULT_MAX h) in
    let prd := rtTrace h ray (fresh_prd g) in
    {| randseed := seed2;
       col := add3 (col st) (result prd);
       acc_alpha := acc_alpha st + alpha prd;
       log := log st ++ [EvJitter jxy; EvTrace ray (fresh_prd g)] |}
  else
    {| randseed := seed1;
       col := col st;
       acc_alpha := acc_alpha st;
       log := log st ++ [EvJitter jxy] |}.

(** [for (int s=0; s<aa_samples; s++)]: [n] iterations. *)
Fixpoint sample_loop (STEREO_ON DOF_ON : bool) (g : Globals F) (vp : Viewport)
    (n : nat) (st : State) : State :=
  match n with
  | O => st
  | S n' => sample_loop STEREO_ON DOF_ON g vp n' (sample STEREO_ON DOF_ON g vp st)
  end.

Definition initial_state (g : Globals F) : State :=
  {| randseed := initial_seed g;
     col := make_float3_s f_zero;
     acc_alpha := f_zero;
     log := [] |}.

Definition final_state (STEREO_ON DOF_ON : bool) (g : Globals F) : State :=
  sample_loop STEREO_ON DOF_ON g (stereo_viewport STEREO_ON g)
              (Z.to_nat (aa_samples g)) (initial_state g).

(** The program: the calls of the loop, then [accumulate_color]. *)
Definition camera_dome_general (STEREO_ON DOF_ON : bool) (g : Globals F)
    : list (event F) :=
  let st := final_state STEREO_ON DOF_ON g in
  log st ++ [EvAccumulate (col st) (acc_alpha st)].

(** The four entry points. *)
Definition camera_dome_master := camera_dome_general false false.
Definition camera_dome_master_dof := camera_dome_general false true.
Definition camera_dome_master_stereo := camera_dome_general true false.
Definition camera_dome_master_stereo_dof := camera_dome_general true true.

End Program.

Arguments Viewport F : clear implicits.
Arguments State F : clear implicits.

(** ** First reading: IEEE 754 binary32 *)

Module Binary32.
Local Open Scope Z_scope.

Definition prec : Z := 24.
Definition emax : Z := 128.

(** [m * 2^e], rounded to nearest even: how a literal is read. *)
Definition lit (m e : Z) : spec_float := binary_normalize prec emax m e false.

Definition of_uint (z : Z) : spec_float := binary_normalize prec emax z 0 false.

(** [3.14159265358979323846f] *)
Definition pi_f : spec_float := lit 13176795 (-22).

(** double precision *)
Definition dprec : Z := 53.
Definition demax : Z := 1024.

Definition widen (x : spec_float) : spec_float :=
  match x with
  | S754_finite s m e => binary_round dprec demax s m e
  | _ => x
  end.

Definition narrow (x : spec_float) : spec_float :=
  match x with
  | S754_finite s m e => binary_round prec emax s m e
  | _ => x
  end.

(** The math library the program is linked with. *)
Record Libm := {
  lm_hypotf : spec_float -> spec_float -> spec_float;
  lm_sincosf : spec_float -> spec_float * spec_float;
  lm_powf : spec_float -> spec_float -> spec_float
}.

Lemma compare_cont_antisym (p q : positive) :
  Pos.compare_cont Eq q p = CompOpp (Pos.compare_cont Eq p q).
Proof. symmetry. apply (Pos.compare_cont_antisym p q Eq). Qed.

Lemma SFcompare_antisym (a b : spec_float) :
  SFcompare b a = option_map CompOpp (SFcompare a b).
Proof.
  destruct a as [sa|sa| |sa ma ea], b as [sb|sb| |sb mb eb]; simpl;
    try reflexivity;
    try (destruct sa; reflexivity);
    try (destruct sb; reflexivity);
    try (destruct sa, sb; reflexivity).
  destruct sa, sb; try reflexivity;
    rewrite (Z.compare_antisym ea eb);
    destruct (ea ?= eb)%Z; simpl; try reflexivity;
    rewrite (compare_cont_antisym ma mb);
    destruct (Pos.compare_cont Eq ma mb); reflexivity.
Qed.

Lemma SFleb_not_SFltb (a b : spec_float) :
  SFleb b a = true -> SFltb a b = false.
Proof.
  unfold SFleb, SFltb. rewrite (SFcompare_antisym a b).
  destruct (SFcompare a b) as [[ | | ]|]; simpl; congruence.
Qed.

Lemma SFltb_not_SFeqb (a b : spec_float) :
  SFltb a b = true -> SFeqb b a = false.
Proof.
  unfold SFltb, SFeqb. rewrite (SFcompare_antisym a b).
  destruct (SFcompare a b) as [[ | | ]|]; simpl; congruence.
Qed.

Definition ops (lm : Libm) : FloatOps spec_float :=
  {| f_add := SFadd prec emax;
     f_sub := SFsub prec emax;
     f_mul := SFmul prec emax;
     f_div := SFdiv prec emax;
     f_neg := SFopp;
     f_ltb := SFltb;
     f_leb := SFleb;
     f_eqb := SFeqb;
     f_of_uint := of_uint;
     f_zero := S754_zero false;
     f_half := lit 1 (-1);
     f_one := lit 1 0;
     f_five := lit 5 0;
     f_180 := lit 180 0;
     M_PIf := pi_f;
     D := spec_float;
     d_half := binary_normalize dprec demax 1 (-1) false;
     d_of_f := widen;
     d_mul := SFmul dprec demax;
     f_of_d := narrow;
     hypotf := lm_hypotf lm;
     sincosf := lm_sincosf lm;
     powf := lm_powf lm;
     f_leb_not_ltb := SFleb_not_SFltb;
     f_ltb_not_eqb := SFltb_not_SFeqb |}.

(** *** A reference math library, to run the program on examples

    [hypotf] rounds the exact square root once.  [sincosf] evaluates the
    Taylor polynomials of degree 11 and 10 in binary32, without argument
    reduction: it is meant for the angles the program passes, below
    [rmax].  [powf] rounds the exact power once when the exponent is a
    natural number, which is what the program passes. *)

Definition mant_exp (x : spec_float) : Z * Z :=
  match x with
  | S754_finite _ m e => (Zpos m, e)
  | _ => (0, 0)
  end.

Definition hypotf_ref (x y : spec_float) : spec_float :=
  match x, y with
  | S754_infinity _, _ | _, S754_infinity _ => S754_infinity false
  | S754_nan, _ | _, S754_nan => S754_nan
  | _, _ =>
    let '(mx, ex) := mant_exp x in
    let '(my, ey) := mant_exp y in
    let e := Z.min ex ey in
    let ax := mx * 2 ^ (ex - e) in
    let ay := my * 2 ^ (ey - e) in
    match ax * ax + ay * ay with
    | Zpos p => SFsqrt prec emax (S754_finite false p (2 * e))
    | _ => S754_zero false
    end
  end.

Definition sincosf_ref (x : spec_float) : spec_float * spec_float :=
  let add := SFadd prec emax in
  let sub := SFsub prec emax in
  let mul := SFmul prec emax in
  let div := SFdiv prec emax in
  let one := lit 1 0 in
  let xx := mul x x in
  let step k acc := sub one (mul (div xx (lit k 0)) acc) in
  (mul x (step 6 (step 20 (step 42 (step 72 (step 110 one))))),
   step 2 (step 12 (step 30 (step 56 (step 90 one))))).

(** The natural number a float stands for, if it does. *)
Definition nat_value (y : spec_float) : option Z :=
  match y with
  | S754_zero _ => Some 0
  | S754_finite false m e =>
    if (0 <=? e)%Z then Some (Zpos m * 2 ^ e)
    else if (Zpos m mod 2 ^ (- e) =? 0)%Z then Some (Zpos m / 2 ^ (- e))
    else None
  | _ => None
  end.

Definition powf_ref (x y : spec_float) : spec_float :=
  match nat_value y with
  | Some 0 => lit 1 0
  | Some n =>
    match x with
    | S754_finite s m e =>
      binary_round prec emax (s && Z.odd n) (Z.to_pos (Zpos m ^ n)) (e * n)
    | S754_zero s => S754_zero (s && Z.odd n)
    | S754_infinity s => S754_infinity (s && Z.odd n)
    | S754_nan => S754_nan
    end
  | None => S754_nan
  end.

Definition libm_ref : Libm :=
  {| lm_hypotf := hypotf_ref; lm_sincosf := sincosf_ref; lm_powf := powf_ref |}.

Definition ops_ref : FloatOps spec_float := ops libm_ref.

End Binary32.

(** ** A host to run the program on examples

    A stand-in for the runtime, used only to apply the theorems below at
    concrete inputs: the hash adds its two words, the jitter generator is an
    argument, the lens has no aperture ([dof_ray] returns the ray it got),
    and a traced ray is coloured by its direction. *)
Module Example.
Local Open Scope Z_scope.

Definition F32 := spec_float.

(** A generator that draws the same offset again and again. *)
Definition constant_jitter (j : float2 F32) (seed : Z) : Z * float2 F32 :=
  (UInt.add seed 1, j).

(** A linear congruential generator, 24 bits of a step per coordinate: the
    offsets lie in [0,1)^2. *)
Definition lcg (seed : Z) : Z := UInt.add (UInt.mul 1664525 seed) 1013904223.

Definition lcg_jitter (seed : Z) : Z * float2 F32 :=
  let s1 := lcg seed in
  let s2 := lcg s1 in
  (s2, make_float2 (Binary32.lit (Z.land s1 0xFFFFFF) (-24))
                   (Binary32.lit (Z.land s2 0xFFFFFF) (-24))).

Definition host (counter : Z) (jitter : Z -> Z * float2 F32) : Host F32 :=
  {| tea4 := UInt.add;
     subframe_count := counter;
     jitter_offset2f := jitter;
     dof_ray := fun o d seed _ _ => (o, d, seed);
     rtTrace := fun ray prd =>
       {| result := direction ray;
          importance := importance prd;
          alpha := alpha prd;
          depth := depth prd;
          transcnt := transcnt prd |};
     RT_DEFAULT_MAX := Binary32.lit (10 ^ 27) 0;
     indeterminate := make_float3 (S754_zero false) (S754_zero false) (S754_zero false) |}.

(** The camera of the spec's worked example: forward [(0,0,1)], up
    [(0,1,0)], right [(1,0,0)], at the origin. *)
Definition camera (dim idx : uint2) (eyesep : F32) (samples : Z) : Globals F32 :=
  let o := S754_zero false in
  let i := Binary32.lit 1 0 in
  {| launch_index := idx;
     launch_dim := dim;
     cam_pos := make_float3 o o o;
     cam_U := make_float3 i o o;
     cam_V := make_float3 o i o;
     cam_W := make_float3 o o i;
     cam_stereo_eyesep := eyesep;
     aa_samples := samples;
     max_trans := 4;
     radiance_ray_type := 0;
     scene_epsilon := Binary32.lit 1 (-10) |}.

End Example.

(** * Properties *)

(** ** Reading the event log *)

Section Log.
Context {F : Type}.

Definition jitters (l : list (event F)) : list (float2 F) :=
  flat_map (fun e => match e with EvJitter j => [j] | _ => [] end) l.

Definition traces (l : list (event F)) : list (Ray F) :=
  flat_map (fun e => match e with EvTrace r _ => [r] | _ => [] end) l.

Definition accumulations (l : list (event F)) : list (float3 F * F) :=
  flat_map (fun e => match e with EvAccumulate c a => [(c, a)] | _ => [] end) l.

Lemma jitters_app (l1 l2 : list (event F)) :
  jitters (l1 ++ l2) = jitters l1 ++ jitters l2.
Proof. apply flat_map_app. Qed.

Lemma traces_app (l1 l2 : list (event F)) :
  traces (l1 ++ l2) = traces l1 ++ traces l2.
Proof. apply flat_map_app. Qed.

Lemma accumulations_app (l1 l2 : list (event F)) :
  accumulations (l1 ++ l2) = accumulations l1 ++ accumulations l2.
Proof. apply flat_map_app. Qed.

End Log.

(** ** The sample loop, for every reading of the arithmetic *)

Section Properties.
Context {F : Type} {ops : FloatOps F}.
Variable h : Host F.
Local Open Scope flt_scope.

(** The seed after a jitter draw, and the offset drawn. *)
Definition next_seed (seed : Z) : Z := fst (jitter_offset2f h seed).
Definition drawn (seed : Z) : float2 F := snd (jitter_offset2f h seed).

(** The angle of the sample that the state [st] is about to draw. *)
Definition rd_of (g : Globals F) (vp : Viewport F) (st : State F) : float2 F :=
  sample_rd g vp (drawn (randseed st)).
Definition rangle_of (g : Globals F) (vp : Viewport F) (st : State F) : F :=
  sample_rangle (rd_of g vp st).

(** The ray the program builds from an origin and a direction. *)
Definition ray_of (g : Globals F) (o d : float3 F) : Ray F :=
  make_Ray o d (radiance_ray_type g) (scene_epsilon g) (RT_DEFAULT_MAX h).

Lemma sample_outside (S_ON D_ON : bool) g vp st :
  (rangle_of g vp st <? rmax) = false ->
  sample h S_ON D_ON g vp st =
    {| randseed := next_seed (randseed st);
       col := col st;
       acc_alpha := acc_alpha st;
       log := log st ++ [EvJitter (drawn (randseed st))] |}.
Proof.
  unfold rangle_of, rd_of, drawn, next_seed, sample.
  destruct (jitter_offset2f h (randseed st)) as [seed1 jxy]; simpl.
  intros ->. reflexivity.
Qed.

Lemma sample_inside (S_ON D_ON : bool) g vp st :
  (rangle_of g vp st <? rmax) = true ->
  sample h S_ON D_ON g vp st =
    let r := dome_ray h S_ON D_ON g vp (rd_of g vp st) (rangle_of g vp st)
                      (next_seed (randseed st)) in
    let ray := ray_of g (fst (fst r)) (snd (fst r)) in
    let prd := rtTrace h ray (fresh_prd h g) in
    {| randseed := snd r;
       col := add3 (col st) (result prd);
       acc_alpha := acc_alpha st + alpha prd;
       log := log st ++ [EvJitter (drawn (randseed st)); EvTrace ray (fresh_prd h g)] |}.
Proof.
  unfold rangle_of, rd_of, drawn, next_seed, sample, ray_of.
  destruct (jitter_offset2f h (randseed st)) as [seed1 jxy]; simpl.
  intros ->.
  destruct (dome_ray h S_ON D_ON g vp (sample_rd g vp jxy)
              (sample_rangle (sample_rd g vp jxy)) seed1) as [[o d] seed2].
  reflexivity.
Qed.

(** Every iteration starts with the draw, whatever the test says. *)
Lemma sample_log (S_ON D_ON : bool) g vp st :
  exists tl,
    log (sample h S_ON D_ON g vp st) =
      log st ++ EvJitter (drawn (randseed st)) :: tl /\
    jitters tl = [] /\ accumulations tl = [].
Proof.
  destruct (rangle_of g vp st <? rmax) eqn:E.
  - rewrite (sample_inside S_ON D_ON g vp st E). simpl.
    eexists. split; [reflexivity|]. split; reflexivity.
  - rewrite (sample_outside S_ON D_ON g vp st E). simpl.
    exists []. split; [reflexivity|]. split; reflexivity.
Qed.

Lemma dome_ray_dof_off_seed (S_ON : bool) g vp rd rangle seed :
  snd (dome_ray h S_ON false g vp rd rangle seed) = seed.
Proof.
  unfold dome_ray. destruct (rangle =? f_zero); reflexivity.
Qed.

Lemma sample_dof_off_seed (S_ON : bool) g vp st :
  randseed (sample h S_ON false g vp st) = next_seed (randseed st).
Proof.
  destruct (rangle_of g vp st <? rmax) eqn:E.
  - rewrite (sample_inside S_ON false g vp st E). simpl.
    apply dome_ray_dof_off_seed.
  - rewrite (sample_outside S_ON false g vp st E). reflexivity.
Qed.

Lemma sample_jitters (S_ON D_ON : bool) g vp st :
  jitters (log (sample h S_ON D_ON g vp st)) =
    jitters (log st) ++ [drawn (randseed st)].
Proof.
  destruct (sample_log S_ON D_ON g vp st) as (tl & -> & Hj & _).
  rewrite jitters_app. simpl. rewrite Hj. reflexivity.
Qed.

Lemma sample_accumulations (S_ON D_ON : bool) g vp st :
  accumulations (log (sample h S_ON D_ON g vp st)) = accumulations (log st).
Proof.
  destruct (sample_log S_ON D_ON g vp st) as (tl & -> & _ & Ha).
  rewrite accumulations_app. simpl. rewrite Ha. apply app_nil_r.
Qed.

Lemma sample_loop_accumulations (S_ON D_ON : bool) g vp n : forall st,
  accumulations (log (sample_loop h S_ON D_ON g vp n st)) = accumulations (log st).
Proof.
  induction n as [|n IH]; intros st; simpl; [reflexivity|].
  rewrite IH. apply sample_accumulations.
Qed.

(** The seed before the [k]-th draw when nothing but the jitter generator
    touches it, and the offset then drawn. *)
Definition seed_at (seed0 : Z) (k : nat) : Z := Nat.iter k next_seed seed0.
Definition jitter_at (seed0 : Z) (k : nat) : float2 F := drawn (seed_at seed0 k).

Lemma seed_at_next (seed0 : Z) (k : nat) :
  seed_at (next_seed seed0) k = seed_at seed0 (S k).
Proof. unfold seed_at. symmetry. apply Nat.iter_succ_r. Qed.

(** *** The stereo halves *)

Lemma shr_double (H : Z) : UInt.shr (2 * H) 1 = H.
Proof.
  unfold UInt.shr. rewrite Z.shiftr_div_pow2 by lia.
  change (2 ^ 1)%Z with 2%Z. rewrite Z.mul_comm. apply Z.div_mul. lia.
Qed.

Lemma stereo_viewport_right (g : Globals F) (H : Z) :
  uy (launch_dim g) = (2 * H)%Z -> (uy (launch_index g) < H)%Z ->
  stereo_viewport true g =
    {| viewport_sz_y := H;
       viewport_idx_y := uy (launch_index g);
       eyeshift := f_half * cam_stereo_eyesep g;
       image := RightImage |}.
Proof.
  intros Hd Hy. unfold stereo_viewport. rewrite Hd, shr_double.
  rewrite Z.geb_leb. destruct (Z.leb_spec H (uy (launch_index g))); [lia|].
  reflexivity.
Qed.

Lemma stereo_viewport_left (g : Globals F) (H : Z) :
  uy (launch_dim g) = (2 * H)%Z ->
  (H <= uy (launch_index g) < UInt.modulus)%Z -> (0 <= H)%Z ->
  stereo_viewport true g =
    {| viewport_sz_y := H;
       viewport_idx_y := (uy (launch_index g) - H)%Z;
       eyeshift := (- f_half) * cam_stereo_eyesep g;
       image := LeftImage |}.
Proof.
  intros Hd Hy H0. unfold stereo_viewport. rewrite Hd, shr_double.
  rewrite Z.geb_leb. destruct (Z.leb_spec H (uy (launch_index g))); [|lia].
  unfold UInt.sub. rewrite UInt.wrap_small; [reflexivity|].
  unfold UInt.in_range. lia.
Qed.

(** C1, as the program has it.  In a stereo frame of height [2H] the rows
    below [H] are the right image: they keep their row number and get the
    eye shift [0.5f * cam_stereo_eyesep].  The rows from [H] on are the left
    image: their row number is lowered by [H] and they get
    [-0.5f * cam_stereo_eyesep].  Both images have [H] rows, and no two rows
    of the frame land on the same row of the same image. *)
Theorem stereo_partition (g : Globals F) (H : Z) :
  (0 < H)%Z -> (2 * H < UInt.modulus)%Z ->
  uy (launch_dim g) = (2 * H)%Z ->
  (0 <= uy (launch_index g) < 2 * H)%Z ->
  let y := uy (launch_index g) in
  let vp := stereo_viewport true g in
  viewport_sz_y vp = H /\
  (0 <= viewport_idx_y vp < H)%Z /\
  ((y < H)%Z ->
     image vp = RightImage /\ viewport_idx_y vp = y /\
     eyeshift vp = f_half * cam_stereo_eyesep g) /\
  ((H <= y)%Z ->
     image vp = LeftImage /\ viewport_idx_y vp = (y - H)%Z /\
     eyeshift vp = (- f_half) * cam_stereo_eyesep g) /\
  (forall g' : Globals F,
     uy (launch_dim g') = (2 * H)%Z ->
     (0 <= uy (launch_index g') < 2 * H)%Z ->
     image (stereo_viewport true g') = image vp ->
     viewport_idx_y (stereo_viewport true g') = viewport_idx_y vp ->
     uy (launch_index g') = y).
Proof.
  intros HH Hm Hd Hy y vp. subst y vp.
  assert (Hcase : forall g0 : Globals F,
            uy (launch_dim g0) = (2 * H)%Z ->
            (0 <= uy (launch_index g0) < 2 * H)%Z ->
            ((uy (launch_index g0) < H)%Z /\
             stereo_viewport true g0 =
               {| viewport_sz_y := H;
                  viewport_idx_y := uy (launch_index g0);
                  eyeshift := f_half * cam_stereo_eyesep g0;
                  image := RightImage |}) \/
            ((H <= uy (launch_index g0))%Z /\
             stereo_viewport true g0 =
               {| viewport_sz_y := H;
                  viewport_idx_y := (uy (launch_index g0) - H)%Z;
                  eyeshift := (- f_half) * cam_stereo_eyesep g0;
                  image := LeftImage |})).
  { intros g0 Hd0 Hy0.
    destruct (Z_lt_le_dec (uy (launch_index g0)) H) as [Hlt|Hge].
    - left. split; [exact Hlt|]. now apply stereo_viewport_right.
    - right. split; [exact Hge|]. apply stereo_viewport_left; lia. }
  destruct (Hcase g Hd Hy) as [[Hlt E]|[Hge E]]; rewrite E;
    cbn [viewport_sz_y viewport_idx_y eyeshift image].
  - split; [reflexivity|]. split; [lia|]. split; [auto|]. split; [lia|].
    intros g' Hd' Hy' Hi Hv.
    destruct (Hcase g' Hd' Hy') as [[Hlt' E']|[Hge' E']];
      rewrite E' in Hi, Hv; cbn [viewport_idx_y image] in Hi, Hv;
      [exact Hv|discriminate].
  - split; [reflexivity|]. split; [lia|]. split; [lia|]. split; [auto|].
    intros g' Hd' Hy' Hi Hv.
    destruct (Hcase g' Hd' Hy') as [[Hlt' E']|[Hge' E']];
      rewrite E' in Hi, Hv; cbn [viewport_idx_y image] in Hi, Hv;
      [discriminate|lia].
Qed.

(** *** Samples outside the field of view *)

(** C2.  A sample whose angle [rangle] from the dome center is at least
    [rmax] adds nothing to the color and alpha accumulators and traces no
    ray, in each of the four variants: the iteration only draws its jitter
    offset. *)
Theorem outside_fov_contributes_nothing (S_ON D_ON : bool)
    (g : Globals F) (vp : Viewport F) (st : State F) :
  (rmax <=? rangle_of g vp st) = true ->
  let st' := sample h S_ON D_ON g vp st in
  col st' = col st /\
  acc_alpha st' = acc_alpha st /\
  traces (log st') = traces (log st) /\
  log st' = log st ++ [EvJitter (drawn (randseed st))].
Proof.
  intros Hout st'. subst st'.
  rewrite (sample_outside S_ON D_ON g vp st (f_leb_not_ltb _ _ Hout)). simpl.
  repeat split. rewrite traces_app. simpl. apply app_nil_r.
Qed.

(** *** The ray of a sample inside the field of view *)

(** C4.  A sample inside the field of view whose [rangle] compares equal to
    zero is traced from [cam_pos] along [cam_W], in each of the four
    variants: the eye shift is not added to the origin and [dof_ray] is not
    called, so the seed is the one the jitter draw left. *)
Theorem dome_center_direction (S_ON D_ON : bool)
    (g : Globals F) (vp : Viewport F) (st : State F) :
  (rangle_of g vp st <? rmax) = true ->
  (rangle_of g vp st =? f_zero) = true ->
  let st' := sample h S_ON D_ON g vp st in
  log st' = log st ++ [EvJitter (drawn (randseed st));
                       EvTrace (ray_of g (cam_pos g) (cam_W g)) (fresh_prd h g)] /\
  traces (log st') = traces (log st) ++ [ray_of g (cam_pos g) (cam_W g)] /\
  randseed st' = next_seed (randseed st).
Proof.
  intros Hin Hz st'. subst st'.
  rewrite (sample_inside S_ON D_ON g vp st Hin).
  unfold dome_ray. rewrite Hz. simpl.
  repeat split. rewrite traces_app. reflexivity.
Qed.

(** C5.  For a sample inside the field of view with [rangle > 0]: [rd] is
    the jittered pixel position minus [viewport_mid], times the radians per
    pixel [(M_PIf / 180) * fov / viewport_sz], axis by axis; [rangle] is
    [hypotf] of [rd]; and the direction of the mapping is
    [cam_U * (s / rangle) * rd.x + cam_V * (s / rangle) * rd.y + cam_W * c]
    with [(s, c)] the sine and cosine of [rangle].  With DOF off that
    direction is the direction of the traced ray; with DOF on it is the
    direction handed to [dof_ray], whose result is traced. *)
Theorem fisheye_mapping (S_ON D_ON : bool)
    (g : Globals F) (vp : Viewport F) (st : State F) :
  (rangle_of g vp st <? rmax) = true ->
  (f_zero <? rangle_of g vp st) = true ->
  let jxy := drawn (randseed st) in
  let rd := rd_of g vp st in
  let rangle := rangle_of g vp st in
  let s := fst (sincosf rangle) in
  let c := snd (sincosf rangle) in
  let U := cam_U g in
  let V := cam_V g in
  let W := cam_W g in
  let dir :=
    make_float3
      (x3 U * (s / rangle) * x2 rd + x3 V * (s / rangle) * y2 rd + x3 W * c)
      (y3 U * (s / rangle) * x2 rd + y3 V * (s / rangle) * y2 rd + y3 W * c)
      (z3 U * (s / rangle) * x2 rd + z3 V * (s / rangle) * y2 rd + z3 W * c) in
  x2 rd =
    (f_of_uint (ux (launch_index g)) + x2 jxy
       - f_of_uint (ux (launch_dim g)) * f_half)
    * (M_PIf / f_180 * f_180 / f_of_uint (ux (launch_dim g))) /\
  y2 rd =
    (f_of_uint (viewport_idx_y vp) + y2 jxy
       - f_of_uint (viewport_sz_y vp) * f_half)
    * (M_PIf / f_180 * f_180 / f_of_uint (viewport_sz_y vp)) /\
  rangle = hypotf (x2 rd) (y2 rd) /\
  fisheye_direction g rd rangle = dir /\
  let o :=
    if S_ON
    then add3 (cam_pos g)
              (lscale3 (eyeshift vp) (powf3 (cross dir W) f_five))
    else cam_pos g in
  let seed1 := next_seed (randseed st) in
  let r :=
    if D_ON
    then dof_ray h o dir seed1 (up_direction g rd rangle)
                 (right_direction g rd rangle)
    else (o, dir, seed1) in
  traces (log (sample h S_ON D_ON g vp st)) =
    traces (log st) ++ [ray_of g (fst (fst r)) (snd (fst r))] /\
  (D_ON = false ->
   traces (log (sample h S_ON D_ON g vp st)) =
     traces (log st) ++ [ray_of g o dir]).
Proof.
  intros Hin Hpos jxy rd rangle s c U V W dir.
  assert (Hdir : fisheye_direction g rd rangle = dir).
  { unfold fisheye_direction, dir, s, c.
    destruct (sincosf rangle) as [rasin racos]. reflexivity. }
  split; [reflexivity|]. split; [reflexivity|]. split; [reflexivity|].
  split; [exact Hdir|].
  intros o seed1 r.
  assert (Hray : dome_ray h S_ON D_ON g vp rd rangle seed1 = r).
  { unfold dome_ray. fold W.
    unfold rangle at 1. rewrite (f_ltb_not_eqb _ _ Hpos). fold rangle.
    rewrite Hdir. unfold r, o. destruct S_ON, D_ON; reflexivity. }
  assert (Htr : traces (log (sample h S_ON D_ON g vp st)) =
                traces (log st) ++ [ray_of g (fst (fst r)) (snd (fst r))]).
  { rewrite (sample_inside S_ON D_ON g vp st Hin).
    cbn [log]. rewrite traces_app. cbn [traces flat_map app].
    fold rd rangle seed1. rewrite Hray. reflexivity. }
  split; [exact Htr|].
  intros ->. exact Htr.
Qed.

(** *** The variant without stereo and without DOF *)

Lemma dome_ray_mono_origin g vp rd rangle seed :
  fst (fst (dome_ray h false false g vp rd rangle seed)) = cam_pos g.
Proof.
  unfold dome_ray. destruct (rangle =? f_zero); reflexivity.
Qed.

Lemma sample_mono_origin g vp st :
  Forall (fun r => origin r = cam_pos g) (traces (log st)) ->
  Forall (fun r => origin r = cam_pos g)
         (traces (log (sample h false false g vp st))).
Proof.
  intros Hst.
  destruct (rangle_of g vp st <? rmax) eqn:E.
  - rewrite (sample_inside false false g vp st E). cbn [log].
    rewrite traces_app. apply Forall_app. split; [exact Hst|].
    cbn [traces flat_map app]. constructor; [|constructor].
    unfold ray_of. cbn [origin]. apply dome_ray_mono_origin.
  - rewrite (sample_outside false false g vp st E). cbn [log].
    rewrite traces_app. cbn [traces flat_map app]. now rewrite app_nil_r.
Qed.

Lemma sample_loop_mono_origin g vp n : forall st,
  Forall (fun r => origin r = cam_pos g) (traces (log st)) ->
  Forall (fun r => origin r = cam_pos g)
         (traces (log (sample_loop h false false g vp n st))).
Proof.
  induction n as [|n IH]; intros st Hst; simpl; [exact Hst|].
  apply IH. now apply sample_mono_origin.
Qed.

(** C7.  [camera_dome_master], the variant without stereo and without DOF,
    traces every ray from [cam_pos]: the rays of samples at the dome center
    and of all other samples inside the field of view alike. *)
Theorem mono_ray_origin_is_cam_pos (g : Globals F) :
  Forall (fun r => origin r = cam_pos g) (traces (camera_dome_master h g)).
Proof.
  unfold camera_dome_master, camera_dome_general, final_state.
  rewrite traces_app. cbn [traces flat_map app]. rewrite app_nil_r.
  apply sample_loop_mono_origin. constructor.
Qed.

(** *** The accumulation call *)

Lemma sample_loop_all_outside (S_ON D_ON : bool) g vp n : forall st,
  (forall k, (k < n)%nat ->
     (sample_rangle (sample_rd g vp (jitter_at (randseed st) k)) <? rmax) = false) ->
  let st' := sample_loop h S_ON D_ON g vp n st in
  col st' = col st /\ acc_alpha st' = acc_alpha st /\
  traces (log st') = traces (log st) /\
  randseed st' = seed_at (randseed st) n.
Proof.
  induction n as [|n IH]; intros st Hall; simpl.
  - repeat split.
  - assert (H0 : (rangle_of g vp st <? rmax) = false).
    { apply (Hall 0%nat). lia. }
    rewrite (sample_outside S_ON D_ON g vp st H0).
    match goal with |- context [sample_loop h S_ON D_ON g vp n ?s] =>
      specialize (IH s) end.
    cbn [randseed col acc_alpha log] in IH.
    destruct IH as (Hc & Ha & Ht & Hs).
    { intros k Hk. unfold jitter_at. rewrite seed_at_next.
      apply (Hall (S k)). lia. }
    rewrite Hc, Ha, Ht, Hs. repeat split.
    + rewrite traces_app. cbn [traces flat_map app]. apply app_nil_r.
    + apply seed_at_next.
Qed.

Lemma camera_dome_accumulations (S_ON D_ON : bool) (g : Globals F) :
  accumulations (camera_dome_general h S_ON D_ON g) =
    [(col (final_state h S_ON D_ON g), acc_alpha (final_state h S_ON D_ON g))].
Proof.
  unfold camera_dome_general. rewrite accumulations_app.
  unfold final_state at 1. rewrite sample_loop_accumulations. reflexivity.
Qed.

Lemma camera_dome_all_outside (S_ON D_ON : bool) (g : Globals F) :
  (forall k, (k < Z.to_nat (aa_samples g))%nat ->
     (sample_rangle (sample_rd g (stereo_viewport S_ON g)
                               (jitter_at (initial_seed h g) k)) <? rmax)
       = false) ->
  traces (camera_dome_general h S_ON D_ON g) = [] /\
  accumulations (camera_dome_general h S_ON D_ON g) =
    [(make_float3_s f_zero, f_zero)].
Proof.
  intros Hall.
  destruct (@sample_loop_all_outside S_ON D_ON g (stereo_viewport S_ON g)
              (Z.to_nat (aa_samples g)) (initial_state h g) Hall)
    as (Hc & Ha & Ht & _).
  split.
  - unfold camera_dome_general. rewrite traces_app. cbn [traces flat_map app].
    rewrite app_nil_r. exact Ht.
  - rewrite camera_dome_accumulations. unfold final_state.
    rewrite Hc, Ha. reflexivity.
Qed.

(** C9.  Each variant calls [accumulate_color] exactly once, as its last
    call, with the two accumulators.  When every sample of the pixel fails
    the field of view test, no ray is traced and that one call still
    happens, with the color [(0,0,0)] and the alpha [0]. *)
Theorem accumulate_color_called_once (S_ON D_ON : bool) (g : Globals F) :
  let st := final_state h S_ON D_ON g in
  let vp := stereo_viewport S_ON g in
  camera_dome_general h S_ON D_ON g =
    log st ++ [EvAccumulate (col st) (acc_alpha st)] /\
  accumulations (log st) = [] /\
  accumulations (camera_dome_general h S_ON D_ON g) = [(col st, acc_alpha st)] /\
  ((forall k, (k < Z.to_nat (aa_samples g))%nat ->
      (sample_rangle (sample_rd g vp (jitter_at (initial_seed h g) k)) <? rmax)
        = false) ->
   traces (camera_dome_general h S_ON D_ON g) = [] /\
   accumulations (camera_dome_general h S_ON D_ON g) =
     [(make_float3_s f_zero, f_zero)]).
Proof.
  intros st vp.
  split; [reflexivity|]. split.
  - unfold st, final_state. rewrite sample_loop_accumulations. reflexivity.
  - split; [apply camera_dome_accumulations|].
    apply camera_dome_all_outside.
Qed.

(** *** The jitter draws when DOF is off *)

Lemma sample_loop_dof_off (S_ON : bool) g vp n : forall st,
  let st' := sample_loop h S_ON false g vp n st in
  randseed st' = seed_at (randseed st) n /\
  jitters (log st') =
    jitters (log st) ++ map (jitter_at (randseed st)) (seq 0 n).
Proof.
  induction n as [|n IH]; intros st; simpl.
  - split; [reflexivity|]. now rewrite app_nil_r.
  - destruct (IH (sample h S_ON false g vp st)) as [Hs Hj].
    rewrite Hs, Hj, sample_dof_off_seed, sample_jitters.
    split; [apply seed_at_next|].
    rewrite <- app_assoc. f_equal. simpl. f_equal.
    rewrite <- seq_shift, map_map. apply map_ext.
    intros k. unfold jitter_at. now rewrite seed_at_next.
Qed.

(** C10.  With DOF off the loop draws exactly [aa_samples] jitter offsets,
    one at the start of each iteration, before the field of view test, and
    nothing else touches the seed: an iteration leaves the seed the draw
    produced, whether its sample is traced or not.  So the [k]-th offset is
    [jitter_at seed0 k], a function of the initial seed and of [k] alone. *)
Theorem jitter_draws_dof_off (S_ON : bool) (g : Globals F) :
  let n := Z.to_nat (aa_samples g) in
  let seed0 := initial_seed h g in
  jitters (camera_dome_general h S_ON false g) = map (jitter_at seed0) (seq 0 n) /\
  length (jitters (camera_dome_general h S_ON false g)) = n /\
  randseed (final_state h S_ON false g) = seed_at seed0 n /\
  (forall (vp : Viewport F) (st : State F),
     randseed (sample h S_ON false g vp st) = next_seed (randseed st) /\
     exists tl,
       log (sample h S_ON false g vp st) =
         log st ++ EvJitter (drawn (randseed st)) :: tl /\
       jitters tl = []).
Proof.
  intros n seed0.
  destruct (@sample_loop_dof_off S_ON g (stereo_viewport S_ON g) n
              (initial_state h g)) as [Hs Hj].
  assert (E : jitters (camera_dome_general h S_ON false g)
              = map (jitter_at seed0) (seq 0 n)).
  { unfold camera_dome_general, final_state. fold n.
    rewrite jitters_app, Hj. cbn [jitters flat_map app initial_state log].
    now rewrite app_nil_r. }
  split; [exact E|]. split.
  - rewrite E. now rewrite length_map, length_seq.
  - split; [exact Hs|]. intros vp st. split.
    + apply sample_dof_off_seed.
    + destruct (sample_log S_ON false g vp st) as (tl & Hl & Hj' & _).
      exists tl. split; assumption.
Qed.

(** *** The seed *)

(** X15.  The seed of a pixel is the hash
    [tea<4>] of the pixel number [launch_dim.x * launch_index.y +
    launch_index.x], computed on unsigned integers, and of the frame
    counter.  Nothing else enters: two launches that agree on the frame
    width and on the pixel get the same seed in each of the four variants,
    whatever the camera, and with DOF off the same jitter offsets. *)
Theorem seed_of_pixel_and_frame (g g' : Globals F) :
  ux (launch_dim g') = ux (launch_dim g) ->
  launch_index g' = launch_index g ->
  randseed (initial_state h g) =
    tea4 h (((ux (launch_dim g) * uy (launch_index g)) mod 2 ^ 32
             + ux (launch_index g)) mod 2 ^ 32)%Z
           (subframe_count h mod 2 ^ 32)%Z /\
  ((0 <= ux (launch_dim g) * uy (launch_index g) + ux (launch_index g)
      < 2 ^ 32)%Z ->
   (0 <= ux (launch_index g))%Z ->
   (0 <= ux (launch_dim g) * uy (launch_index g))%Z ->
   pixel_number g =
     (ux (launch_dim g) * uy (launch_index g) + ux (launch_index g))%Z) /\
  initial_seed h g' = initial_seed h g /\
  (forall (S_ON S_ON' : bool) (vp vp' : Viewport F) (n : nat),
     jitters (log (sample_loop h S_ON' false g' vp' n (initial_state h g'))) =
     jitters (log (sample_loop h S_ON false g vp n (initial_state h g)))).
Proof.
  intros Hw Hi.
  assert (Hseed : initial_seed h g' = initial_seed h g).
  { unfold initial_seed, pixel_number. now rewrite Hw, Hi. }
  split; [reflexivity|]. split.
  - intros Hr Hx Hm. unfold pixel_number, UInt.add, UInt.mul.
    rewrite (UInt.wrap_small (z := ux (launch_dim g) * uy (launch_index g)))
      by (unfold UInt.in_range, UInt.modulus; lia).
    apply UInt.wrap_small. exact Hr.
  - split; [exact Hseed|]. intros S_ON S_ON' vp vp' n.
    destruct (@sample_loop_dof_off S_ON g vp n (initial_state h g)) as [_ ->].
    destruct (@sample_loop_dof_off S_ON' g' vp' n (initial_state h g')) as [_ ->].
    cbn [initial_state randseed log]. now rewrite Hseed.
Qed.

End Properties.

(** ** The worked example, in binary32

    A 2x2 frame, stereo and DOF off, the camera at the origin looking along
    [(0,0,1)] with up [(0,1,0)] and right [(1,0,0)], and the reference math
    library. *)

Module WorkedExample.
Import Binary32 Example.
Local Open Scope Z_scope.

Definition zero : F32 := S754_zero false.
Definition one : F32 := lit 1 0.

(** The pixel [(px, py)] of the 2x2 frame, with [n] samples. *)
Definition pixel (px py n : Z) : Globals F32 :=
  camera (make_uint2 2 2) (make_uint2 px py) one n.

(** Its viewport when stereo is off. *)
Definition mono (px py : Z) : Viewport F32 :=
  @stereo_viewport F32 ops_ref false (pixel px py 1).

(** Two jitter offsets of [0,1)^2: none, and three quarters of a pixel each
    way. *)
Definition no_jitter : float2 F32 := make_float2 zero zero.
Definition jitter_34 : float2 F32 := make_float2 (lit 3 (-2)) (lit 3 (-2)).

Definition in_unit_square (j : float2 F32) : bool :=
  SFleb zero (x2 j) && SFltb (x2 j) one && SFleb zero (y2 j) && SFltb (y2 j) one.

Definition rangle_at (px py : Z) (j : float2 F32) : F32 :=
  @sample_rangle F32 ops_ref (@sample_rd F32 ops_ref (pixel px py 1) (mono px py) j).

Definition rmax32 : F32 := @rmax F32 ops_ref.

(** [rmax] is half of [M_PIf], exactly. *)
Lemma rmax_binary32 : rmax32 = SFmul prec emax (lit 1 (-1)) pi_f.
Proof. vm_compute. reflexivity. Qed.

(** The product in double precision of [rmax] rounds as the product in
    single precision does. *)
Lemma rmax_single_rounding :
  rmax32 = SFmul prec emax (SFmul prec emax (lit 1 (-1)) (lit 180 0))
                 (SFdiv prec emax pi_f (lit 180 0)).
Proof. vm_compute. reflexivity. Qed.

(** [pi_f] is the float nearest to the literal of [M_PIf]:
    [|13176795 / 2^22 - 3.14159265358979323846| < 2^-23]. *)
Lemma pi_f_nearest :
  2 * Z.abs (13176795 * 10 ^ 20 - 314159265358979323846 * 2 ^ 22) < 10 ^ 20.
Proof. vm_compute. reflexivity. Qed.

(** The hosts of the examples: frame counter 0, and a jitter generator
    that keeps drawing [j]. *)
Definition host_drawing (j : float2 F32) : Host F32 := host 0 (constant_jitter j).

Definition start (hst : Host F32) (px py : Z) : State F32 :=
  @initial_state F32 ops_ref hst (pixel px py 1).

Definition run_mono (hst : Host F32) (px py n : Z) : list (event F32) :=
  @camera_dome_master F32 ops_ref hst (pixel px py n).

(** *** C1: the sign of the eye shift *)

(** C1 fails as stated.  In the stereo frame of height 2 with eye
    separation 1, row 0 lies below [H = 1]: it is the right image and keeps
    its row number, but its eye shift is [0.5], not [-0.5]. *)
Lemma stereo_lower_half_shift_is_positive :
  (uy (launch_index (pixel 0 0 1)) <? 1) = true /\
  image (@stereo_viewport F32 ops_ref true (pixel 0 0 1)) = RightImage /\
  viewport_idx_y (@stereo_viewport F32 ops_ref true (pixel 0 0 1)) = 0 /\
  eyeshift (@stereo_viewport F32 ops_ref true (pixel 0 0 1)) = lit 1 (-1) /\
  SFeqb (eyeshift (@stereo_viewport F32 ops_ref true (pixel 0 0 1)))
        (SFmul prec emax (SFopp (lit 1 (-1))) one) = false.
Proof. vm_compute. repeat split. Qed.

Lemma stereo_partition_witness :
  viewport_sz_y (@stereo_viewport F32 ops_ref true (pixel 0 0 1)) = 1 /\
  0 <= viewport_idx_y (@stereo_viewport F32 ops_ref true (pixel 0 0 1)) < 1.
Proof.
  pose proof (@stereo_partition F32 ops_ref (pixel 0 0 1) 1) as P.
  cbv zeta in P.
  destruct P as (P1 & P2 & _).
  - lia.
  - vm_compute. reflexivity.
  - reflexivity.
  - simpl. lia.
  - split; [exact P1 | exact P2].
Defined.

(** *** C3: the corner pixel *)

(** C3 fails as stated.  The offset [(0.75, 0.75)] lies in [0,1)^2, and the
    sample it gives pixel (0,0) has [rangle < rmax]: the ray is traced and
    the pixel accumulates its color and the alpha 1. *)
Lemma worked_example_jittered_sample_inside :
  in_unit_square jitter_34 = true /\
  SFltb (rangle_at 0 0 jitter_34) rmax32 = true /\
  SFltb rmax32 (rangle_at 0 0 jitter_34) = false /\
  length (traces (run_mono (host_drawing jitter_34) 0 0 1)) = 1%nat /\
  map snd (accumulations (run_mono (host_drawing jitter_34) 0 0 1)) = [one].
Proof. vm_compute. repeat split. Qed.

(** C3, as the program has it.  Without jitter, the sample of pixel (0,0) has
    [rd = (-rmax, -rmax)], so [rangle], about 2.2214, exceeds [rmax]; when
    all the samples of the pixel are drawn there, whatever their number and
    the frame counter, no ray is traced and the pixel accumulates the color
    [(0,0,0)] and the alpha [0]. *)
Theorem worked_example_corner_excluded :
  in_unit_square no_jitter = true /\
  @sample_rd F32 ops_ref (pixel 0 0 1) (mono 0 0) no_jitter =
    make_float2 (SFopp rmax32) (SFopp rmax32) /\
  rangle_at 0 0 no_jitter = S754_finite false 9317401 (-22) /\
  SFltb rmax32 (rangle_at 0 0 no_jitter) = true /\
  forall n counter : Z,
    traces (@camera_dome_master F32 ops_ref
              (host counter (constant_jitter no_jitter)) (pixel 0 0 n)) = [] /\
    accumulations (@camera_dome_master F32 ops_ref
              (host counter (constant_jitter no_jitter)) (pixel 0 0 n)) =
      [(make_float3 zero zero zero, zero)].
Proof.
  split; [vm_compute; reflexivity|].
  split; [vm_compute; reflexivity|].
  split; [vm_compute; reflexivity|].
  split; [vm_compute; reflexivity|].
  intros n counter.
  apply (@camera_dome_all_outside F32 ops_ref
           (host counter (constant_jitter no_jitter)) false false (pixel 0 0 n)).
  intros k _. vm_compute. reflexivity.
Qed.

Lemma accumulate_color_called_once_witness :
  accumulations (run_mono (host_drawing no_jitter) 0 0 3) =
    [(make_float3 zero zero zero, zero)].
Proof.
  refine (proj2 (proj2 (proj2 (proj2
            (@accumulate_color_called_once F32 ops_ref
               (host_drawing no_jitter) false false (pixel 0 0 3)))) _)).
  intros k _. vm_compute. reflexivity.
Defined.

(** *** The seed of two launches *)

Lemma seed_of_pixel_and_frame_witness :
  initial_seed (host 7 lcg_jitter) (pixel 1 0 4) =
  initial_seed (host 7 lcg_jitter) (pixel 1 0 1).
Proof.
  pose proof (@seed_of_pixel_and_frame F32 ops_ref (host 7 lcg_jitter)
                (pixel 1 0 1) (pixel 1 0 4) eq_refl eq_refl) as P.
  exact (proj1 (proj2 (proj2 P))).
Defined.

(** *** Witnesses of the theorems on samples *)

Lemma outside_fov_contributes_nothing_witness :
  col (@sample F32 ops_ref (host_drawing no_jitter) false false
               (pixel 0 0 1) (mono 0 0) (start (host_drawing no_jitter) 0 0)) =
  col (start (host_drawing no_jitter) 0 0).
Proof.
  refine (proj1 (@outside_fov_contributes_nothing F32 ops_ref
                   (host_drawing no_jitter) false false (pixel 0 0 1) (mono 0 0)
                   (start (host_drawing no_jitter) 0 0) _)).
  vm_compute. reflexivity.
Defined.

(** The stereo frame of height 2: pixel (1,0) with the offset [(0, 0.5)]
    is the center of the right image. *)
Definition half_down : float2 F32 := make_float2 zero (lit 1 (-1)).
Definition stereo (px py : Z) : Viewport F32 :=
  @stereo_viewport F32 ops_ref true (pixel px py 1).

Lemma dome_center_direction_witness :
  traces (log (@sample F32 ops_ref (host_drawing half_down) true true
                       (pixel 1 0 1) (stereo 1 0)
                       (start (host_drawing half_down) 1 0))) =
  [@ray_of F32 (host_drawing half_down) (pixel 1 0 1)
           (cam_pos (pixel 1 0 1)) (cam_W (pixel 1 0 1))].
Proof.
  refine (proj1 (proj2 (@dome_center_direction F32 ops_ref
                   (host_drawing half_down) true true (pixel 1 0 1) (stereo 1 0)
                   (start (host_drawing half_down) 1 0) _ _))).
  - vm_compute. reflexivity.
  - vm_compute. reflexivity.
Defined.

(** In binary32 a sample at the dome center is inside the field of view,
    whatever the math library. *)
Lemma center_in_fov_binary32 (lm : Libm) (r : F32) :
  SFeqb r (S754_zero false) = true ->
  SFltb r (@rmax F32 (ops lm)) = true.
Proof.
  destruct r as [[|]|[|]| |[|] m e]; simpl; try discriminate;
    intros _; vm_compute; reflexivity.
Qed.

Lemma fisheye_mapping_witness :
  @rangle_of F32 ops_ref (host_drawing jitter_34) (pixel 0 0 1) (mono 0 0)
             (start (host_drawing jitter_34) 0 0) =
  hypotf_ref
    (x2 (@rd_of F32 ops_ref (host_drawing jitter_34) (pixel 0 0 1) (mono 0 0)
                (start (host_drawing jitter_34) 0 0)))
    (y2 (@rd_of F32 ops_ref (host_drawing jitter_34) (pixel 0 0 1) (mono 0 0)
                (start (host_drawing jitter_34) 0 0))).
Proof.
  pose proof (@fisheye_mapping F32 ops_ref (host_drawing jitter_34) false false
                (pixel 0 0 1) (mono 0 0) (start (host_drawing jitter_34) 0 0)) as P.
  cbv zeta in P.
  destruct P as (_ & _ & P3 & _).
  - vm_compute. reflexivity.
  - vm_compute. reflexivity.
  - exact P3.
Defined.

End WorkedExample.

(** * Further properties of the program *)

(** ** Launches that differ in one variable *)

Section Updates.
Context {F : Type}.

Definition with_aa_samples (g : Globals F) (n : Z) : Globals F :=
  {| launch_index := launch_index g;
     launch_dim := launch_dim g;
     cam_pos := cam_pos g;
     cam_U := cam_U g;
     cam_V := cam_V g;
     cam_W := cam_W g;
     cam_stereo_eyesep := cam_stereo_eyesep g;
     aa_samples := n;
     max_trans := max_trans g;
     radiance_ray_type := radiance_ray_type g;
     scene_epsilon := scene_epsilon g |}.

Definition with_eyesep (g : Globals F) (sep : F) : Globals F :=
  {| launch_index := launch_index g;
     launch_dim := launch_dim g;
     cam_pos := cam_pos g;
     cam_U := cam_U g;
     cam_V := cam_V g;
     cam_W := cam_W g;
     cam_stereo_eyesep := sep;
     aa_samples := aa_samples g;
     max_trans := max_trans g;
     radiance_ray_type := radiance_ray_type g;
     scene_epsilon := scene_epsilon g |}.

(** The same launch on a frame of another height. *)
Definition with_frame_height (g : Globals F) (height : Z) : Globals F :=
  {| launch_index := launch_index g;
     launch_dim := make_uint2 (ux (launch_dim g)) height;
     cam_pos := cam_pos g;
     cam_U := cam_U g;
     cam_V := cam_V g;
     cam_W := cam_W g;
     cam_stereo_eyesep := cam_stereo_eyesep g;
     aa_samples := aa_samples g;
     max_trans := max_trans g;
     radiance_ray_type := radiance_ray_type g;
     scene_epsilon := scene_epsilon g |}.

(** The directions of the rays of a log. *)
Definition directions (l : list (event F)) : list (float3 F) :=
  map (@direction F) (traces l).

Lemma directions_app (l1 l2 : list (event F)) :
  directions (l1 ++ l2) = directions l1 ++ directions l2.
Proof. unfold directions. rewrite traces_app. apply map_app. Qed.

End Updates.

(** ** What a run accumulates and what it hands to [rtTrace] *)

Section Runs.
Context {F : Type} {ops : FloatOps F}.
Variable h : Host F.
Local Open Scope flt_scope.

(** What [rtTrace] returns for a ray sent with the fresh payload. *)
Definition traced_color (g : Globals F) (r : Ray F) : float3 F :=
  result (rtTrace h r (fresh_prd h g)).
Definition traced_alpha (g : Globals F) (r : Ray F) : F :=
  alpha (rtTrace h r (fresh_prd h g)).

(** The accumulators are the sums, in the order of the calls, of what the
    traced rays returned. *)
Definition sums_up (g : Globals F) (st : State F) : Prop :=
  col st = fold_left add3 (map (traced_color g) (traces (log st)))
                     (make_float3_s f_zero) /\
  acc_alpha st = fold_left f_add (map (traced_alpha g) (traces (log st))) f_zero.

Lemma sample_sums_up (S_ON D_ON : bool) g vp st :
  sums_up g st -> sums_up g (sample h S_ON D_ON g vp st).
Proof.
  intros [Hc Ha]. unfold sums_up.
  destruct (@rangle_of F ops h g vp st <? rmax) eqn:E.
  - rewrite (@sample_inside F ops h S_ON D_ON g vp st E).
    cbn [col acc_alpha log]. rewrite traces_app. cbn [traces flat_map app].
    rewrite !map_app, !fold_left_app. cbn [map fold_left].
    rewrite <- Hc, <- Ha. split; reflexivity.
  - rewrite (@sample_outside F ops h S_ON D_ON g vp st E).
    cbn [col acc_alpha log]. rewrite traces_app. cbn [traces flat_map app].
    rewrite app_nil_r. split; assumption.
Qed.

Lemma sample_loop_sums_up (S_ON D_ON : bool) g vp n : forall st,
  sums_up g st -> sums_up g (sample_loop h S_ON D_ON g vp n st).
Proof.
  induction n as [|n IH]; intros st Hst; simpl; [exact Hst|].
  apply IH. now apply sample_sums_up.
Qed.

(** X1.  In each variant the color and the alpha handed to
    [accumulate_color] are the sums, from zero and in the order of the
    calls, of the results and alphas that [rtTrace] returned for the rays
    of the run. *)
Theorem accumulated_is_sum_of_traced (S_ON D_ON : bool) (g : Globals F) :
  accumulations (camera_dome_general h S_ON D_ON g) =
    [(fold_left add3
        (map (traced_color g) (traces (camera_dome_general h S_ON D_ON g)))
        (make_float3_s f_zero),
      fold_left f_add
        (map (traced_alpha g) (traces (camera_dome_general h S_ON D_ON g)))
        f_zero)].
Proof.
  rewrite (@camera_dome_accumulations F ops h S_ON D_ON g).
  assert (Ht : traces (camera_dome_general h S_ON D_ON g) =
               traces (log (final_state h S_ON D_ON g))).
  { unfold camera_dome_general. rewrite traces_app.
    cbn [traces flat_map app]. apply app_nil_r. }
  rewrite Ht.
  destruct (@sample_loop_sums_up S_ON D_ON g (stereo_viewport S_ON g)
              (Z.to_nat (aa_samples g)) (initial_state h g)) as [Hc Ha].
  { split; reflexivity. }
  unfold final_state. rewrite <- Hc, <- Ha. reflexivity.
Qed.

(** What every call of [rtTrace] has in common. *)
Definition well_formed_trace (g : Globals F) (e : event F) : Prop :=
  match e with
  | EvTrace ray prd =>
      ray_type ray = radiance_ray_type g /\
      tmin ray = scene_epsilon g /\
      tmax ray = RT_DEFAULT_MAX h /\
      importance prd = f_one /\
      alpha prd = f_one /\
      depth prd = 0%Z /\
      transcnt prd = max_trans g
  | _ => True
  end.

Lemma sample_well_formed (S_ON D_ON : bool) g vp st :
  Forall (well_formed_trace g) (log st) ->
  Forall (well_formed_trace g) (log (sample h S_ON D_ON g vp st)).
Proof.
  intros Hst.
  destruct (@rangle_of F ops h g vp st <? rmax) eqn:E.
  - rewrite (@sample_inside F ops h S_ON D_ON g vp st E). cbn [log].
    apply Forall_app. split; [exact Hst|].
    constructor; [exact I|]. constructor; [|constructor].
    cbn. repeat split.
  - rewrite (@sample_outside F ops h S_ON D_ON g vp st E). cbn [log].
    apply Forall_app. split; [exact Hst|]. constructor; [exact I|constructor].
Qed.

Lemma sample_loop_well_formed (S_ON D_ON : bool) g vp n : forall st,
  Forall (well_formed_trace g) (log st) ->
  Forall (well_formed_trace g) (log (sample_loop h S_ON D_ON g vp n st)).
Proof.
  induction n as [|n IH]; intros st Hst; simpl; [exact Hst|].
  apply IH. now apply sample_well_formed.
Qed.

(** X2.  In each variant every call of [rtTrace] sends a ray of type
    [radiance_ray_type] with the interval [scene_epsilon, RT_DEFAULT_MAX]
    and a payload set anew: importance 1, alpha 1, depth 0 and [max_trans]
    transparent surfaces left.  No payload is carried over from one sample
    to the next. *)
Theorem every_trace_is_well_formed (S_ON D_ON : bool) (g : Globals F) :
  Forall (well_formed_trace g) (camera_dome_general h S_ON D_ON g).
Proof.
  unfold camera_dome_general. apply Forall_app. split.
  - apply sample_loop_well_formed. constructor.
  - constructor; [exact I|constructor].
Qed.

(** *** How many draws and rays *)

Lemma sample_traces_length (S_ON D_ON : bool) g vp st :
  (length (traces (log (sample h S_ON D_ON g vp st)))
   <= S (length (traces (log st))))%nat.
Proof.
  destruct (@rangle_of F ops h g vp st <? rmax) eqn:E.
  - rewrite (@sample_inside F ops h S_ON D_ON g vp st E). cbn [log].
    rewrite traces_app, length_app. cbn. lia.
  - rewrite (@sample_outside F ops h S_ON D_ON g vp st E). cbn [log].
    rewrite traces_app, length_app. cbn. lia.
Qed.

Lemma sample_loop_counts (S_ON D_ON : bool) g vp n : forall st,
  length (jitters (log (sample_loop h S_ON D_ON g vp n st))) =
    (length (jitters (log st)) + n)%nat /\
  (length (traces (log (sample_loop h S_ON D_ON g vp n st)))
   <= length (traces (log st)) + n)%nat.
Proof.
  induction n as [|n IH]; intros st; simpl.
  - split; lia.
  - destruct (IH (sample h S_ON D_ON g vp st)) as [Hj Ht].
    rewrite Hj. rewrite (@sample_jitters F ops h S_ON D_ON g vp st).
    rewrite length_app. cbn [length].
    pose proof (sample_traces_length S_ON D_ON g vp st). split; lia.
Qed.

(** X3.  Each variant, with or without DOF, draws exactly [aa_samples]
    jitter offsets (none when [aa_samples] is not positive) and traces at
    most that many rays. *)
Theorem draws_and_rays_counted (S_ON D_ON : bool) (g : Globals F) :
  length (jitters (camera_dome_general h S_ON D_ON g)) = Z.to_nat (aa_samples g) /\
  (length (traces (camera_dome_general h S_ON D_ON g))
   <= Z.to_nat (aa_samples g))%nat.
Proof.
  unfold camera_dome_general, final_state.
  rewrite jitters_app, traces_app, !length_app.
  destruct (@sample_loop_counts S_ON D_ON g (stereo_viewport S_ON g)
              (Z.to_nat (aa_samples g)) (initial_state h g)) as [Hj Ht].
  change (length (jitters (log (initial_state h g)))) with 0%nat in Hj.
  change (length (traces (log (initial_state h g)))) with 0%nat in Ht.
  rewrite Hj.
  change (length (jitters [EvAccumulate
            (col (sample_loop h S_ON D_ON g (stereo_viewport S_ON g)
                    (Z.to_nat (aa_samples g)) (initial_state h g)))
            (acc_alpha (sample_loop h S_ON D_ON g (stereo_viewport S_ON g)
                    (Z.to_nat (aa_samples g)) (initial_state h g)))]))
    with 0%nat.
  change (length (traces [EvAccumulate
            (col (sample_loop h S_ON D_ON g (stereo_viewport S_ON g)
                    (Z.to_nat (aa_samples g)) (initial_state h g)))
            (acc_alpha (sample_loop h S_ON D_ON g (stereo_viewport S_ON g)
                    (Z.to_nat (aa_samples g)) (initial_state h g)))]))
    with 0%nat.
  split; lia.
Qed.

(** X4.  When [aa_samples] is zero or negative the loop body never runs: the
    only call of the program is [accumulate_color] with the color
    [(0,0,0)] and the alpha [0]. *)
Theorem no_samples_accumulates_black (S_ON D_ON : bool) (g : Globals F) :
  (aa_samples g <= 0)%Z ->
  camera_dome_general h S_ON D_ON g =
    [EvAccumulate (make_float3_s f_zero) f_zero].
Proof.
  intros Hn. unfold camera_dome_general, final_state.
  replace (Z.to_nat (aa_samples g)) with 0%nat by lia. reflexivity.
Qed.

(** *** More samples *)

Lemma sample_loop_plus (S_ON D_ON : bool) g vp n m : forall st,
  sample_loop h S_ON D_ON g vp (n + m) st =
    sample_loop h S_ON D_ON g vp m (sample_loop h S_ON D_ON g vp n st).
Proof.
  induction n as [|n IH]; intros st; simpl; [reflexivity|]. apply IH.
Qed.

Lemma sample_loop_extends (S_ON D_ON : bool) g vp n : forall st,
  exists tl, log (sample_loop h S_ON D_ON g vp n st) = log st ++ tl.
Proof.
  induction n as [|n IH]; intros st; simpl.
  - exists []. now rewrite app_nil_r.
  - destruct (IH (sample h S_ON D_ON g vp st)) as [tl ->].
    destruct (@sample_log F ops h S_ON D_ON g vp st) as (tl' & -> & _).
    eexists. rewrite <- app_assoc. reflexivity.
Qed.

Lemma sample_with_aa_samples (S_ON D_ON : bool) g k vp st :
  sample h S_ON D_ON (with_aa_samples g k) vp st = sample h S_ON D_ON g vp st.
Proof. reflexivity. Qed.

Lemma sample_loop_with_aa_samples (S_ON D_ON : bool) g k vp n : forall st,
  sample_loop h S_ON D_ON (with_aa_samples g k) vp n st =
    sample_loop h S_ON D_ON g vp n st.
Proof.
  induction n as [|n IH]; intros st; simpl; [reflexivity|].
  rewrite sample_with_aa_samples. apply IH.
Qed.

(** X5.  Raising [aa_samples] from [n] to [n + m] keeps the first [n]
    samples as they were: the calls of the run with [n] samples, the seed it
    ends with, and its accumulators are those the longer run has after its
    first [n] iterations, and the longer run only adds calls after them. *)
Theorem more_samples_extend_the_run (S_ON D_ON : bool) (g : Globals F)
    (n m : nat) :
  let short := final_state h S_ON D_ON (with_aa_samples g (Z.of_nat n)) in
  let long := final_state h S_ON D_ON (with_aa_samples g (Z.of_nat (n + m))) in
  long = sample_loop h S_ON D_ON g (stereo_viewport S_ON g) m short /\
  exists tl, log long = log short ++ tl /\ length (jitters tl) = m.
Proof.
  intros short long.
  assert (E : long = sample_loop h S_ON D_ON g (stereo_viewport S_ON g) m short).
  { unfold long, short, final_state. cbn [with_aa_samples aa_samples].
    rewrite !Nat2Z.id, !sample_loop_with_aa_samples.
    change (stereo_viewport S_ON (with_aa_samples g (Z.of_nat (n + m))))
      with (stereo_viewport S_ON g).
    change (stereo_viewport S_ON (with_aa_samples g (Z.of_nat n)))
      with (stereo_viewport S_ON g).
    change (initial_state h (with_aa_samples g (Z.of_nat (n + m))))
      with (initial_state h g).
    change (initial_state h (with_aa_samples g (Z.of_nat n)))
      with (initial_state h g).
    apply sample_loop_plus. }
  split; [exact E|].
  destruct (@sample_loop_extends S_ON D_ON g (stereo_viewport S_ON g) m short)
    as [tl Htl].
  exists tl. rewrite E. split; [exact Htl|].
  destruct (@sample_loop_counts S_ON D_ON g (stereo_viewport S_ON g) m short)
    as [Hj _].
  rewrite Htl, jitters_app, length_app in Hj. lia.
Qed.

End Runs.

(** ** Stereo and mono frames *)

Section Frames.
Context {F : Type} {ops : FloatOps F}.
Variable h : Host F.
Local Open Scope flt_scope.

Lemma flat_map_map (A B C : Type) (f : B -> list C) (k : A -> B) (l : list A) :
  flat_map f (map k l) = flat_map (fun x => f (k x)) l.
Proof.
  induction l as [|a l IH]; simpl; [reflexivity|]. now rewrite IH.
Qed.

(** Two viewports that place the pixel on the same row of an image of the
    same height. *)
Definition same_pixel (vp vp' : Viewport F) : Prop :=
  viewport_sz_y vp = viewport_sz_y vp' /\ viewport_idx_y vp = viewport_idx_y vp'.

Lemma sample_rd_same_pixel (g : Globals F) (vp vp' : Viewport F) (j : float2 F) :
  same_pixel vp vp' -> sample_rd g vp j = sample_rd g vp' j.
Proof.
  intros [Hs Hi].
  unfold sample_rd, viewport_mid, radperpix, viewport_sz. now rewrite Hs, Hi.
Qed.

(** The direction of the ray of a sample when DOF is off, if it has one. *)
Definition sample_direction (g : Globals F) (vp : Viewport F) (j : float2 F)
    : list (float3 F) :=
  let rd := sample_rd g vp j in
  let rangle := sample_rangle rd in
  if rangle <? rmax then
    [if rangle =? f_zero then cam_W g else fisheye_direction g rd rangle]
  else [].

Lemma sample_directions_dof_off (S_ON : bool) g vp st :
  directions (log (sample h S_ON false g vp st)) =
    directions (log st) ++ sample_direction g vp (@drawn F h (randseed st)).
Proof.
  unfold sample_direction.
  change (sample_rangle (sample_rd g vp (@drawn F h (randseed st))))
    with (@rangle_of F ops h g vp st).
  change (sample_rd g vp (@drawn F h (randseed st)))
    with (@rd_of F ops h g vp st).
  destruct (@rangle_of F ops h g vp st <? rmax) eqn:E.
  - rewrite (@sample_inside F ops h S_ON false g vp st E). cbn [log].
    rewrite directions_app. f_equal.
    unfold directions. cbn [traces flat_map app map]. f_equal.
    unfold ray_of. cbn [direction]. unfold dome_ray.
    destruct (@rangle_of F ops h g vp st =? f_zero); reflexivity.
  - rewrite (@sample_outside F ops h S_ON false g vp st E). cbn [log].
    rewrite directions_app. reflexivity.
Qed.

Lemma sample_loop_directions_dof_off (S_ON : bool) g vp n : forall st,
  directions (log (sample_loop h S_ON false g vp n st)) =
    directions (log st) ++
    flat_map (fun k => sample_direction g vp (@jitter_at F h (randseed st) k))
             (seq 0 n).
Proof.
  induction n as [|n IH]; intros st; simpl.
  - now rewrite app_nil_r.
  - rewrite IH, sample_directions_dof_off.
    rewrite (@sample_dof_off_seed F ops h S_ON g vp st).
    rewrite <- app_assoc. f_equal. f_equal.
    rewrite <- seq_shift, flat_map_map.
    apply flat_map_ext. intros k. unfold jitter_at.
    now rewrite seed_at_next.
Qed.

Lemma run_jitters_dof_off (S_ON : bool) (g : Globals F) :
  jitters (camera_dome_general h S_ON false g) =
    map (@jitter_at F h (initial_seed h g)) (seq 0 (Z.to_nat (aa_samples g))).
Proof.
  destruct (@sample_loop_dof_off F ops h S_ON g (stereo_viewport S_ON g)
              (Z.to_nat (aa_samples g)) (initial_state h g)) as [_ Hj].
  unfold camera_dome_general, final_state.
  rewrite jitters_app, Hj. cbn [jitters flat_map app initial_state log randseed].
  now rewrite app_nil_r.
Qed.

Lemma run_directions_dof_off (S_ON : bool) (g : Globals F) :
  directions (camera_dome_general h S_ON false g) =
    flat_map (fun k => sample_direction g (stereo_viewport S_ON g)
                         (@jitter_at F h (initial_seed h g) k))
             (seq 0 (Z.to_nat (aa_samples g))).
Proof.
  unfold camera_dome_general, final_state.
  rewrite directions_app, sample_loop_directions_dof_off.
  change (directions (log (initial_state h g))) with (@nil (float3 F)).
  cbn [app initial_state randseed].
  match goal with |- _ ++ directions ?l = _ =>
    change (directions l) with (@nil (float3 F)) end.
  now rewrite app_nil_r.
Qed.

(** X6.  The variants without stereo never read [cam_stereo_eyesep]: with
    another eye separation, [camera_dome_master] and
    [camera_dome_master_dof] make the same calls with the same arguments. *)
Theorem mono_ignores_eye_separation (D_ON : bool) (g : Globals F) (sep : F) :
  camera_dome_general h false D_ON (with_eyesep g sep) =
  camera_dome_general h false D_ON g.
Proof.
  assert (Hloop : forall n st,
            sample_loop h false D_ON (with_eyesep g sep)
                        (stereo_viewport false g) n st =
            sample_loop h false D_ON g (stereo_viewport false g) n st).
  { induction n as [|n IH]; intros st; simpl; [reflexivity|].
    rewrite IH. reflexivity. }
  unfold camera_dome_general, final_state.
  change (stereo_viewport false (with_eyesep g sep))
    with (stereo_viewport false g).
  change (initial_state h (with_eyesep g sep)) with (initial_state h g).
  change (aa_samples (with_eyesep g sep)) with (aa_samples g).
  rewrite Hloop. reflexivity.
Qed.

Lemma stereo_viewport_eyesep_same_pixel (g : Globals F) (sep : F) :
  same_pixel (stereo_viewport true (with_eyesep g sep)) (stereo_viewport true g).
Proof.
  unfold same_pixel, stereo_viewport. cbn [with_eyesep launch_dim launch_index].
  destruct (uy (launch_index g) >=? UInt.shr (uy (launch_dim g)) 1)%Z;
    split; reflexivity.
Qed.

(** X7.  With stereo on and DOF off the eye separation moves the origins of
    the rays and nothing else: with another eye separation the run draws
    the same jitter offsets and traces rays in the same directions. *)
Theorem eye_separation_keeps_directions (g : Globals F) (sep : F) :
  jitters (camera_dome_master_stereo h (with_eyesep g sep)) =
    jitters (camera_dome_master_stereo h g) /\
  directions (camera_dome_master_stereo h (with_eyesep g sep)) =
    directions (camera_dome_master_stereo h g).
Proof.
  unfold camera_dome_master_stereo. split.
  - rewrite !run_jitters_dof_off. reflexivity.
  - rewrite !run_directions_dof_off.
    change (aa_samples (with_eyesep g sep)) with (aa_samples g).
    change (initial_seed h (with_eyesep g sep)) with (initial_seed h g).
    apply flat_map_ext. intros k. unfold sample_direction.
    change (sample_rd (with_eyesep g sep)) with (sample_rd g).
    rewrite (sample_rd_same_pixel g _ (stereo_viewport_eyesep_same_pixel g sep)).
    reflexivity.
Qed.

(** X8.  With DOF off, the right image of a stereo frame of height [2H] is
    drawn like the mono frame of height [H]: for a pixel of a row below [H],
    [camera_dome_master_stereo] draws the same jitter offsets and traces
    rays in the same directions as [camera_dome_master] does for that pixel
    on the frame of the same width and of height [H]. *)
Theorem stereo_right_image_is_mono_frame (g : Globals F) (H : Z) :
  uy (launch_dim g) = (2 * H)%Z ->
  (uy (launch_index g) < H)%Z ->
  jitters (camera_dome_master_stereo h g) =
    jitters (camera_dome_master h (with_frame_height g H)) /\
  directions (camera_dome_master_stereo h g) =
    directions (camera_dome_master h (with_frame_height g H)).
Proof.
  intros Hd Hy. unfold camera_dome_master_stereo, camera_dome_master. split.
  - rewrite !run_jitters_dof_off. reflexivity.
  - rewrite !run_directions_dof_off.
    change (aa_samples (with_frame_height g H)) with (aa_samples g).
    change (initial_seed h (with_frame_height g H)) with (initial_seed h g).
    apply flat_map_ext. intros k. unfold sample_direction.
    change (sample_rd (with_frame_height g H)) with (sample_rd g).
    assert (Hsame : same_pixel (stereo_viewport true g)
                      (stereo_viewport false (with_frame_height g H))).
    { rewrite (@stereo_viewport_right F ops g H Hd Hy).
      split; reflexivity. }
    rewrite (sample_rd_same_pixel g _ Hsame). reflexivity.
Qed.

(** X9.  On a frame of at most [2^32] pixels the pixel number that feeds the
    hash tells the pixels apart: two pixels of the frame with the same
    number are the same pixel.  So no two pixels of a frame, and no two rows
    of the two stereo images, share their hash input. *)
Theorem pixel_number_injective (g g' : Globals F) :
  launch_dim g' = launch_dim g ->
  (ux (launch_dim g) * uy (launch_dim g) <= UInt.modulus)%Z ->
  (0 <= ux (launch_index g) < ux (launch_dim g))%Z ->
  (0 <= uy (launch_index g) < uy (launch_dim g))%Z ->
  (0 <= ux (launch_index g') < ux (launch_dim g))%Z ->
  (0 <= uy (launch_index g') < uy (launch_dim g))%Z ->
  pixel_number g' = pixel_number g ->
  launch_index g' = launch_index g.
Proof.
  intros Hdim Hsize Hx Hy Hx' Hy'.
  unfold pixel_number. rewrite Hdim.
  destruct (launch_dim g) as [W Hh].
  destruct (launch_index g) as [x y], (launch_index g') as [x' y'].
  cbn [ux uy] in *.
  assert (Hno : forall a b, (0 <= a < W)%Z -> (0 <= b < Hh)%Z ->
                  UInt.add (UInt.mul W b) a = (W * b + a)%Z).
  { intros a b Ha Hb. unfold UInt.add, UInt.mul.
    assert (Hb' : (W * b + a < W * Hh)%Z) by nia.
    rewrite (@UInt.wrap_small (W * b)) by (unfold UInt.in_range; nia).
    apply UInt.wrap_small. unfold UInt.in_range. nia. }
  rewrite (Hno x y Hx Hy), (Hno x' y' Hx' Hy'). intros E.
  assert (y' = y) by nia. subst y'.
  assert (x' = x) by lia. subst x'. reflexivity.
Qed.

Lemma shr_odd (H : Z) : UInt.shr (2 * H + 1) 1 = H.
Proof.
  unfold UInt.shr. rewrite Z.shiftr_div_pow2 by lia.
  change (2 ^ 1)%Z with 2%Z. symmetry. apply (Z.div_unique _ _ _ 1); lia.
Qed.

(** X10.  A stereo frame of odd height [2H + 1] is not split evenly: both
    images are given the height [H], the rows from [H] on are all left
    image rows, and the last row of the frame gets the local row number
    [H], one past the last row of an image of that height. *)
Theorem stereo_odd_height_last_row (g : Globals F) (H : Z) :
  (0 <= H)%Z -> (2 * H + 1 < UInt.modulus)%Z ->
  uy (launch_dim g) = (2 * H + 1)%Z ->
  (H <= uy (launch_index g) <= 2 * H)%Z ->
  let vp := stereo_viewport true g in
  image vp = LeftImage /\
  viewport_sz_y vp = H /\
  viewport_idx_y vp = (uy (launch_index g) - H)%Z /\
  (uy (launch_index g) = (2 * H)%Z -> viewport_idx_y vp = viewport_sz_y vp).
Proof.
  intros H0 Hm Hd Hy vp. subst vp.
  unfold stereo_viewport. rewrite Hd, shr_odd.
  rewrite Z.geb_leb. destruct (Z.leb_spec H (uy (launch_index g))); [|lia].
  cbn [image viewport_sz_y viewport_idx_y].
  assert (E : UInt.sub (uy (launch_index g)) H = (uy (launch_index g) - H)%Z).
  { unfold UInt.sub. apply UInt.wrap_small. unfold UInt.in_range. lia. }
  rewrite E. repeat split. lia.
Qed.

End Frames.

(** ** The two eyes, in binary32 *)

Module StereoBinary32.
Import Binary32.

Lemma binary_round_aux_opp (p e : Z) (s : bool) (m x : Z) (l : location) :
  SFopp (binary_round_aux p e s m x l) = binary_round_aux p e (negb s) m x l.
Proof.
  unfold binary_round_aux.
  destruct (shr_fexp p e m x l) as [mrs e1].
  destruct (shr_fexp p e (round_nearest_even (shr_m mrs) (loc_of_shr_record mrs))
                     e1 loc_Exact) as [mrs2 e2].
  destruct (shr_m mrs2); [reflexivity| |reflexivity].
  destruct (e2 <=? e - p)%Z; reflexivity.
Qed.

(** Rounding to nearest even is symmetric: negating a factor negates the
    product. *)
Lemma SFmul_opp_l (p e : Z) (x y : spec_float) :
  SFmul p e (SFopp x) y = SFopp (SFmul p e x y).
Proof.
  destruct x as [sx|sx| |sx mx ex], y as [sy|sy| |sy my ey]; simpl;
    try reflexivity;
    try (destruct sx, sy; reflexivity).
  rewrite binary_round_aux_opp. f_equal. destruct sx, sy; reflexivity.
Qed.

(** X14.  In binary32, whatever the math library, the eye shifts of the two
    images are exact opposites: a launch in the left image gets the negated
    shift of a launch in the right image with the same eye separation, and
    for every vector [p] (the fifth powers of line 101) the offset
    [eyeshift * p] added to the left eye's origin is, component by
    component, the negated offset of the right eye. *)
Theorem stereo_eye_shifts_are_opposite (lm : Libm) (g g' : Globals spec_float) :
  cam_stereo_eyesep g' = cam_stereo_eyesep g ->
  image (@stereo_viewport spec_float (ops lm) true g) = RightImage ->
  image (@stereo_viewport spec_float (ops lm) true g') = LeftImage ->
  eyeshift (@stereo_viewport spec_float (ops lm) true g') =
    SFopp (eyeshift (@stereo_viewport spec_float (ops lm) true g)) /\
  forall p : float3 spec_float,
    @lscale3 spec_float (ops lm)
       (eyeshift (@stereo_viewport spec_float (ops lm) true g')) p =
    @neg3 spec_float (ops lm)
       (@lscale3 spec_float (ops lm)
          (eyeshift (@stereo_viewport spec_float (ops lm) true g)) p).
Proof.
  intros Hsep. unfold stereo_viewport.
  destruct (uy (launch_index g) >=? UInt.shr (uy (launch_dim g)) 1)%Z;
    cbn [image]; [discriminate|intros _].
  destruct (uy (launch_index g') >=? UInt.shr (uy (launch_dim g')) 1)%Z;
    cbn [image]; [intros _|discriminate].
  cbn [eyeshift]. rewrite Hsep.
  assert (E : @f_mul spec_float (ops lm) (@f_neg spec_float (ops lm)
                (@f_half spec_float (ops lm))) (cam_stereo_eyesep g) =
              SFopp (@f_mul spec_float (ops lm) (@f_half spec_float (ops lm))
                       (cam_stereo_eyesep g))).
  { apply SFmul_opp_l. }
  rewrite E. split; [reflexivity|].
  intros p. unfold lscale3, neg3. cbn [x3 y3 z3].
  f_equal; apply SFmul_opp_l.
Qed.

End StereoBinary32.

(** ** The further properties at concrete launches *)

Module MoreExamples.
Import Binary32 Example WorkedExample.
Local Open Scope Z_scope.

(** The last row of a stereo frame of 2 by 3 pixels. *)
Definition odd_frame_pixel : Globals F32 :=
  camera (make_uint2 2 3) (make_uint2 0 2) one 1.

Lemma no_samples_accumulates_black_witness :
  @camera_dome_master_stereo_dof F32 ops_ref (host 0 lcg_jitter) (pixel 0 0 0) =
    [EvAccumulate (make_float3 zero zero zero) zero].
Proof.
  refine (@no_samples_accumulates_black F32 ops_ref (host 0 lcg_jitter)
            true true (pixel 0 0 0) _).
  simpl. lia.
Defined.

Lemma stereo_right_image_is_mono_frame_witness :
  directions (@camera_dome_master_stereo F32 ops_ref (host 0 lcg_jitter)
                (pixel 1 0 3)) =
  directions (@camera_dome_master F32 ops_ref (host 0 lcg_jitter)
                (with_frame_height (pixel 1 0 3) 1)).
Proof.
  refine (proj2 (@stereo_right_image_is_mono_frame F32 ops_ref
                   (host 0 lcg_jitter) (pixel 1 0 3) 1 _ _)).
  - reflexivity.
  - simpl. lia.
Defined.

Lemma pixel_number_injective_witness :
  launch_index (pixel 1 0 4) = launch_index (pixel 1 0 1).
Proof.
  refine (@pixel_number_injective F32 (pixel 1 0 1) (pixel 1 0 4) _ _ _ _ _ _ _).
  - reflexivity.
  - vm_compute. discriminate.
  - simpl. lia.
  - simpl. lia.
  - simpl. lia.
  - simpl. lia.
  - reflexivity.
Defined.

Lemma stereo_odd_height_last_row_witness :
  viewport_idx_y (@stereo_viewport F32 ops_ref true odd_frame_pixel) =
  viewport_sz_y (@stereo_viewport F32 ops_ref true odd_frame_pixel).
Proof.
  pose proof (@stereo_odd_height_last_row F32 ops_ref odd_frame_pixel 1) as P.
  cbv zeta in P.
  destruct P as (_ & _ & _ & P4).
  - lia.
  - vm_compute. reflexivity.
  - reflexivity.
  - simpl. lia.
  - apply P4. reflexivity.
Defined.

Lemma stereo_eye_shifts_are_opposite_witness :
  eyeshift (@stereo_viewport F32 ops_ref true (pixel 0 1 1)) =
  SFopp (eyeshift (@stereo_viewport F32 ops_ref true (pixel 0 0 1))).
Proof.
  refine (proj1 (@StereoBinary32.stereo_eye_shifts_are_opposite libm_ref
                   (pixel 0 0 1) (pixel 0 1 1) _ _ _)).
  - reflexivity.
  - vm_compute. reflexivity.
  - vm_compute. reflexivity.
Defined.

End MoreExamples.

(** ** Radial symmetry of the mapping, in binary32 *)

Module RadialSymmetry.
Import Binary32 Example WorkedExample.
Local Open Scope Z_scope.

Definition is_zero (x : spec_float) : bool :=
  match x with S754_zero _ => true | _ => false end.



(** The same float, or two zeros (of either sign). *)
Definition same_value (x y : spec_float) : Prop :=
  x = y \/ (is_zero x = true /\ is_zero y = true).

Definition mul : spec_float -> spec_float -> spec_float := SFmul prec emax.
Definition add : spec_float -> spec_float -> spec_float := SFadd prec emax.




(** *** Products with one and with zero, sums with zero *)



Lemma mul_comm (x y : spec_float) : mul x y = mul y x.
Proof.
  unfold mul.
  destruct x as [sx|sx| |sx mx ex], y as [sy|sy| |sy my ey]; simpl;
    try reflexivity; try (rewrite xorb_comm; reflexivity).
  rewrite xorb_comm, Pos.mul_comm, Z.add_comm. reflexivity.
Qed.










(** Floats with the same value compare equal, unless they are not numbers. *)
Lemma same_value_eqb (x y : spec_float) :
  same_value x y -> y <> S754_nan -> SFeqb x y = true.
Proof.
  intros [->|[Hx Hy]] Hn.
  - destruct y as [s|s| |s m e]; try (destruct s; reflexivity).
    + contradiction.
    + unfold SFeqb. simpl. rewrite Z.compare_refl.
      assert (Hm : Pos.compare_cont Eq m m = Eq) by apply Pos.compare_refl.
      rewrite Hm. destruct s; reflexivity.
  - destruct x, y; try discriminate; reflexivity.
Qed.

(** *** The direction for the axis-aligned camera *)




(** *** A camera that is not axis-aligned *)








End RadialSymmetry.
